(** * Call processing engine of callattendant (callattendant/app.py)

    A shallow embedding of [CallAttendant.handle_caller], [CallAttendant.run]
    and [CallAttendant.answer_call].  The collaborators (screener, logger,
    modem, voice mail) are an environment [Env]; every call to one of them is
    recorded as an [event] in the trace, and each may raise a Python
    exception.  The modem's [ring_event] is a [threading.Event]: a flag that
    [wait] observes, set by the modem thread. *)

From Stdlib Require Import Ascii String List ZArith Bool Lia.
Import ListNotations.
Open Scope string_scope.
Open Scope list_scope.

(** ** Python values and exceptions *)

Inductive exn :=
| RuntimeError (msg : string)
| KeyError (key : string)
| TypeError
| NameError (name : string)
| OSError (msg : string).

(** [except RuntimeError as e] *)
Definition is_runtime_error (e : exn) : bool :=
  match e with RuntimeError _ => true | _ => false end.

(** Values stored in a caller dict (the modem puts strings, or None). *)
Inductive pyval := PyStr (s : string) | PyNone.

(** A caller is the dict built by the modem from the caller-ID signal. *)
Definition caller := list (string * pyval).

Fixpoint dict_get (k : string) (d : caller) : option pyval :=
  match d with
  | [] => None
  | (k', v) :: d' => if String.eqb k k' then Some v else dict_get k d'
  end.

(** Python's [x in l] for a list (or tuple) of strings. *)
Definition py_in (x : string) (l : list string) : bool :=
  existsb (String.eqb x) l.

Inductive result (A : Type) := Ok (a : A) | Exn (e : exn).
Arguments Ok {A} a.
Arguments Exn {A} e.

(** [d[k]] *)
Definition getitem (k : string) (d : caller) : result pyval :=
  match dict_get k d with Some v => Ok v | None => Exn (KeyError k) end.

(** ** Configuration read by [run] *)

(** One of the [PERMITTED_], [SCREENED_], [BLOCKED_] namespaces. *)
Record category_cfg := {
  actions : list string;
  greeting_file : string;
  rings_before_answer : Z
}.

Record Config := {
  screening_mode : list string;
  permitted : category_cfg;
  screened : category_cfg;
  blocked : category_cfg
}.

(** ** The ring event ([modem.ring_event], a [threading.Event])

    While [run] waits on the event, the modem thread may, within the
    7 seconds of the wait, do nothing ([Silent]), set the event and clear it
    again ([Pulse]) or set it and leave it set ([Latch]).  [arrivals] lists
    what it does during the successive waits; past its end the line is
    silent. *)
Inductive arrival := Silent | Pulse | Latch.

Record ring_state := { ring_flag : bool; arrivals : list arrival }.

(** ** Observable events *)
Inductive event :=
| EvGet (c : caller)
| EvCheckWhitelist
| EvCheckBlacklist
| EvApprovedBlink
| EvBlockedBlink
| EvLog (action reason : string)
| EvWait (signalled : bool)
| EvPickUp
| EvPlayAudio (greeting : string)
| EvRecord (call_no : nat)
| EvMenu (call_no : nat)
| EvHangUp
| EvReport (e : exn).

(** ** Collaborators *)
Record Env := {
  is_whitelisted : caller -> result (bool * string);
  is_blacklisted : caller -> result (bool * string);
  log_caller : caller -> string -> string -> result nat;
  pick_up : result bool;
  play_audio : string -> result unit;
  record_message : nat -> caller -> result unit;
  voice_messaging_menu : nat -> caller -> result unit;
  hang_up : result unit
}.

(** ** A state, error and trace monad *)
Definition M (A : Type) := ring_state -> result A * ring_state * list event.

Definition ret {A} (a : A) : M A := fun s => (Ok a, s, []).

Definition bind {A B} (m : M A) (f : A -> M B) : M B :=
  fun s =>
    match m s with
    | (Ok a, s1, t1) => let '(r, s2, t2) := f a s1 in (r, s2, t1 ++ t2)
    | (Exn e, s1, t1) => (Exn e, s1, t1)
    end.

Declare Scope py_scope.
Delimit Scope py_scope with py.
Notation "x <- m ;; f" := (bind m (fun x => f))
  (at level 61, m at next level, right associativity) : py_scope.
Notation "' p <- m ;; f" := (bind m (fun x => match x with p => f end))
  (at level 61, p pattern, m at next level, right associativity) : py_scope.
Notation "m ;; f" := (bind m (fun _ => f))
  (at level 61, right associativity) : py_scope.
Open Scope py_scope.

Definition raise {A} (e : exn) : M A := fun s => (Exn e, s, []).

Definition lift {A} (r : result A) : M A := fun s => (r, s, []).

Definition emit (ev : event) : M unit := fun s => (Ok tt, s, [ev]).

(** A call to a collaborator: recorded, then its result (or exception). *)
Definition call {A} (ev : event) (r : result A) : M A := emit ev ;; lift r.

(** [try: m except <p> as e: h(e)] *)
Definition try_except {A} (p : exn -> bool) (m : M A) (h : exn -> M A) : M A :=
  fun s =>
    match m s with
    | (Exn e, s1, t1) =>
        if p e then let '(r, s2, t2) := h e s1 in (r, s2, t1 ++ t2)
        else (Exn e, s1, t1)
    | o => o
    end.

(** [try: m finally: fin] : [fin] always runs; its exception, if any,
    replaces the outcome of [m]. *)
Definition try_finally {A} (m : M A) (fin : M unit) : M A :=
  fun s =>
    let '(r, s1, t1) := m s in
    let '(rf, s2, t2) := fin s1 in
    (match rf with Ok _ => r | Exn e => Exn e end, s2, t1 ++ t2).

(** [ring_event.wait(7)]: returns at once if the flag is set, otherwise
    whether the modem set it within the timeout. *)
Definition ring_wait7 : M bool :=
  fun s =>
    if ring_flag s then (Ok true, s, [EvWait true])
    else match arrivals s with
         | [] => (Ok false, s, [EvWait false])
         | Silent :: rest =>
             (Ok false, {| ring_flag := false; arrivals := rest |}, [EvWait false])
         | Pulse :: rest =>
             (Ok true, {| ring_flag := false; arrivals := rest |}, [EvWait true])
         | Latch :: rest =>
             (Ok true, {| ring_flag := true; arrivals := rest |}, [EvWait true])
         end.

(** ** The engine *)
Section Engine.

Variable env : Env.
Variable cfg : Config.

(** [self._caller_queue.put(caller)]: the queue is the list of callers not
    yet taken by [run]; the caller dict is enqueued as it is. *)
Definition handle_caller (q : list caller) (c : caller) : list caller :=
  q ++ [c].

(** Lines 124-125: [number = caller["NMBR"]] and the slicing
    [number[0:3]], which raises [TypeError] on [None]. *)
Definition caller_number (c : caller) : M string :=
  v <- lift (getitem "NMBR" c) ;;
  match v with PyStr n => ret n | PyNone => raise TypeError end.

(** Lines 129-156: the screening.  The result is
    [(caller_permitted, caller_screened, caller_blocked, action, reason)]. *)
Definition screen (c : caller) : M (bool * bool * bool * string * string) :=
  ' (caller_permitted, action, reason) <-
    (if py_in "whitelist" (screening_mode cfg) then
       ' (is_wl, reason) <- call EvCheckWhitelist (is_whitelisted env c) ;;
       if is_wl then emit EvApprovedBlink ;; ret (true, "Permitted", reason)
       else ret (false, "", reason)
     else ret (false, "", "")) ;;
  ' (caller_blocked, action, reason) <-
    (if negb caller_permitted && py_in "blacklist" (screening_mode cfg) then
       ' (is_bl, reason') <- call EvCheckBlacklist (is_blacklisted env c) ;;
       if is_bl then emit EvBlockedBlink ;; ret (true, "Blocked", reason')
       else ret (false, action, reason')
     else ret (false, action, reason)) ;;
  if negb caller_permitted && negb caller_blocked then
    emit EvApprovedBlink ;;
    ret (caller_permitted, true, caller_blocked, "Screened", reason)
  else ret (caller_permitted, false, caller_blocked, action, reason).

(** Lines 163-174: the settings of the caller's category.  The last
    [else] is the [UnboundLocalError] of the source, never reached. *)
Definition select_plan (caller_permitted caller_screened caller_blocked : bool)
  : M category_cfg :=
  if caller_permitted then ret (permitted cfg)
  else if caller_screened then ret (screened cfg)
  else if caller_blocked then ret (blocked cfg)
  else raise (NameError "actions").

(** Lines 177-190: [while ring_count < rings_before_answer].  [fuel] bounds
    the iterations; when it runs out [ring_count] has reached the bound. *)
Fixpoint ring_loop (fuel : nat) (ring_count rings : Z) : M bool :=
  match fuel with
  | O => ret true
  | S fuel' =>
      if (ring_count <? rings)%Z then
        signalled <- ring_wait7 ;;
        if signalled then ring_loop fuel' (ring_count + 1)%Z rings
        else ret false
      else ret true
  end.

(** The ring wait: [ok_to_answer] after the loop, starting from
    [ring_count = 1]. *)
Definition wait_rings (rings : Z) : M bool :=
  ring_loop (Z.to_nat (rings - 1)) 1 rings.

(** Lines 209-222: the body of the [try] in [answer_call]. *)
Definition answer_actions (acts : list string) (greeting : string)
  (call_no : nat) (c : caller) : M unit :=
  (if py_in "greeting" acts then call (EvPlayAudio greeting) (play_audio env greeting)
   else ret tt) ;;
  if py_in "record_message" acts then
    call (EvRecord call_no) (record_message env call_no c)
  else if py_in "voice_mail" acts then
    call (EvMenu call_no) (voice_messaging_menu env call_no c)
  else ret tt.

(** [CallAttendant.answer_call] (lines 201-229). *)
Definition answer_call (acts : list string) (greeting : string)
  (call_no : nat) (c : caller) : M unit :=
  picked <- call EvPickUp (pick_up env) ;;
  if picked then
    try_finally
      (try_except is_runtime_error (answer_actions acts greeting call_no c)
         (fun e => emit (EvReport e)))
      (call EvHangUp (hang_up env))
  else ret tt.

(** The part of the loop body before the call is logged (lines 121-156). *)
Definition classify (c : caller) : M (bool * bool * bool * string * string) :=
  _ <- caller_number c ;;
  screen c.

(** The rest of the loop body (lines 159-194). *)
Definition log_and_answer (c : caller)
  (cl : bool * bool * bool * string * string) : M unit :=
  let '(caller_permitted, caller_screened, caller_blocked, action, reason) := cl in
  call_no <- call (EvLog action reason) (log_caller env c action reason) ;;
  plan <- select_plan caller_permitted caller_screened caller_blocked ;;
  ok_to_answer <- wait_rings (rings_before_answer plan) ;;
  if ok_to_answer && (0 <? length (actions plan))%nat then
    answer_call (actions plan) (greeting_file plan) call_no c
  else ret tt.

(** The body of the [try] in [run], for one dequeued caller. *)
Definition handle_call (c : caller) : M unit :=
  cl <- classify c ;;
  log_and_answer c cl.

(** The outcome of [run]: still blocked in [self._caller_queue.get()]
    waiting for a caller, or returned with a value. *)
Inductive run_outcome := Waiting | Returned (code : Z).

(** The [while 1] loop of [run] (lines 118-199) over the queued callers. *)
Fixpoint run_loop (q : list caller) : M run_outcome :=
  match q with
  | [] => ret Waiting
  | c :: q' =>
      fun s =>
        let '(r, s1, t1) := (emit (EvGet c) ;; handle_call c) s in
        match r with
        | Ok _ =>
            let '(r2, s2, t2) := run_loop q' s1 in (r2, s2, t1 ++ t2)
        | Exn e => (Ok (Returned 1%Z), s1, t1 ++ [EvReport e])
        end
  end.

End Engine.

(** ** Command line: [get_args] (lines 269-291) and the [getopt] module

    [getopt.getopt] of the Python standard library, for the options
    [get_args] uses ("hc:" and ["help", "config="]), written after its
    source: [short_has_arg], [do_shorts], [long_has_args], [do_longs] and the
    main loop. *)

Inductive getopt_result (A : Type) := GOk (a : A) | GetoptError (msg opt : string).
Arguments GOk {A} a.
Arguments GetoptError {A} msg opt.

(** The [(option, value)] pairs collected by [getopt]. *)
Definition opt_pairs := list (string * string).

Definition char (c : Ascii.ascii) : string := String c EmptyString.

(** [short_has_arg(opt, shortopts)]: the first [i] with
    [opt == shortopts[i] != ':'] tells whether [shortopts[i+1]] is [':']. *)
Fixpoint short_has_arg (opt : Ascii.ascii) (shortopts : string) : getopt_result bool :=
  match shortopts with
  | EmptyString =>
      GetoptError ("option -" ++ char opt ++ " not recognized")%string (char opt)
  | String ch rest =>
      if Ascii.eqb opt ch && negb (Ascii.eqb ch ":") then GOk (String.prefix ":" rest)
      else short_has_arg opt rest
  end.

(** [do_shorts(opts, optstring, shortopts, args)] *)
Fixpoint do_shorts (opts : opt_pairs) (optstring shortopts : string)
  (args : list string) : getopt_result (opt_pairs * list string) :=
  match optstring with
  | EmptyString => GOk (opts, args)
  | String opt rest =>
      match short_has_arg opt shortopts with
      | GetoptError m o => GetoptError m o
      | GOk true =>
          if String.eqb rest "" then
            match args with
            | [] => GetoptError ("option -" ++ char opt ++ " requires argument")%string
                      (char opt)
            | a :: args' => GOk (opts ++ [("-" ++ char opt, a)%string], args')
            end
          else GOk (opts ++ [("-" ++ char opt, rest)%string], args)
      | GOk false => do_shorts (opts ++ [("-" ++ char opt, "")%string]) rest shortopts args
      end
  end.

(** [s.endswith('=')] and [s[:-1]] *)
Definition ends_with_eq (s : string) : bool :=
  match String.length s with
  | O => false
  | S k => String.eqb (substring k 1 s) "="
  end.

Definition drop_last (s : string) : string :=
  substring 0 (String.length s - 1) s.

(** [long_has_args(opt, longopts)] *)
Definition long_has_args (opt : string) (longopts : list string)
  : getopt_result (bool * string) :=
  let possibilities := filter (fun o => String.prefix opt o) longopts in
  match possibilities with
  | [] => GetoptError ("option --" ++ opt ++ " not recognized")%string opt
  | _ =>
      if py_in opt possibilities then GOk (false, opt)
      else if py_in (opt ++ "=")%string possibilities then GOk (true, opt)
      else match possibilities with
           | [unique_match] =>
               if ends_with_eq unique_match then GOk (true, drop_last unique_match)
               else GOk (false, unique_match)
           | _ => GetoptError ("option --" ++ opt ++ " not a unique prefix")%string opt
           end
  end.

(** [do_longs(opts, opt, longopts, args)]; [optarg or ''] is [optarg]
    itself, since [None] only occurs without an argument. *)
Definition do_longs (opts : opt_pairs) (opt : string) (longopts : list string)
  (args : list string) : getopt_result (opt_pairs * list string) :=
  let '(opt, optarg) :=
    match String.index 0 "=" opt with
    | None => (opt, None)
    | Some i => (substring 0 i opt,
                 Some (substring (i + 1) (String.length opt - (i + 1)) opt))
    end in
  match long_has_args opt longopts with
  | GetoptError m o => GetoptError m o
  | GOk (has_arg, opt) =>
      if has_arg then
        match optarg with
        | None =>
            match args with
            | [] => GetoptError ("option --" ++ opt ++ " requires argument")%string opt
            | a :: args' => GOk (opts ++ [("--" ++ opt, a)%string], args')
            end
        | Some oa => GOk (opts ++ [("--" ++ opt, oa)%string], args)
        end
      else
        match optarg with
        | Some _ =>
            GetoptError ("option --" ++ opt ++ " must not have an argument")%string opt
        | None => GOk (opts ++ [("--" ++ opt, "")%string], args)
        end
  end.

(** The [while] loop of [getopt]: options are read while the first argument
    starts with ['-'] and is not ['-']; ["--"] ends them.  Every turn
    consumes at least one argument, so [length args] turns suffice. *)
Fixpoint getopt_loop (fuel : nat) (opts : opt_pairs) (args : list string)
  (shortopts : string) (longopts : list string)
  : getopt_result (opt_pairs * list string) :=
  match fuel with
  | O => GOk (opts, args)
  | S fuel' =>
      match args with
      | [] => GOk (opts, args)
      | a :: rest =>
          if String.prefix "-" a && negb (String.eqb a "-") then
            if String.eqb a "--" then GOk (opts, rest)
            else
              match
                (if String.prefix "--" a
                 then do_longs opts (substring 2 (String.length a - 2) a) longopts rest
                 else do_shorts opts (substring 1 (String.length a - 1) a) shortopts rest)
              with
              | GOk (opts', args') => getopt_loop fuel' opts' args' shortopts longopts
              | GetoptError m o => GetoptError m o
              end
          else GOk (opts, args)
      end
  end.

Definition getopt (args : list string) (shortopts : string) (longopts : list string)
  : getopt_result (opt_pairs * list string) :=
  getopt_loop (List.length args) [] args shortopts longopts.

(** What [get_args] does: return the config file, or end the process with
    [sys.exit] ([sys.exit()] exits with status 0). *)
Inductive args_outcome := ArgsConfig (configfile : option string) | ArgsExit (status : Z).

Definition syntax : string := "Usage: python callattendant.py -c [FILE]".
Definition tab : string := char (Ascii.ascii_of_nat 9).
Definition help_lines : list string :=
  [syntax; ("-c, --config=[FILE]" ++ tab ++ "load a python configuration file")%string;
   ("-h, --help" ++ tab ++ tab ++ "displays this help text")%string].

(** The [for opt, arg in opts] loop of [get_args], with the lines it
    prints. *)
Fixpoint scan_opts (opts : opt_pairs) (configfile : option string)
  : list string * args_outcome :=
  match opts with
  | [] => ([], ArgsConfig configfile)
  | (opt, arg) :: rest =>
      if py_in opt ["-h"; "--help"] then (help_lines, ArgsExit 0)
      else if py_in opt ["-c"; "--config"] then scan_opts rest (Some arg)
      else scan_opts rest configfile
  end.

(** [get_args(argv)]: the lines printed and the outcome. *)
Definition get_args (argv : list string) : list string * args_outcome :=
  match getopt (tl argv) "hc:" ["help"; "config="] with
  | GetoptError _ _ => ([syntax], ArgsExit 2)
  | GOk (opts, _) => scan_opts opts None
  end.

(** The options [get_args] treats as a request for help, and the values of
    the [-c] and [--config] options, in the order given. *)
Definition is_help_opt (p : string * string) : bool := py_in (fst p) ["-h"; "--help"].

Definition config_values (opts : opt_pairs) : list string :=
  map snd (filter (fun p => py_in (fst p) ["-c"; "--config"]) opts).

(** ** [main] (lines 294-314) and [sys.exit(main(sys.argv))]

    [valid f] is what [make_config(f).validate()] answers, [init] the
    outcome of the [CallAttendant] constructor and [run_loop] the call to
    [app.run()].  An exception escaping [main] ends Python with status 1. *)
Inductive main_outcome := MainExit (status : Z) | MainWaiting.

Definition main env cfg (valid : option string -> bool) (init : result unit)
  (q : list caller) (argv : list string) (s : ring_state) : main_outcome :=
  match snd (get_args argv) with
  | ArgsExit status => MainExit status
  | ArgsConfig config_file =>
      if negb (valid config_file) then MainExit 1
      else match init with
           | Exn _ => MainExit 1
           | Ok _ =>
               match run_loop env cfg q s with
               | (Ok Waiting, _, _) => MainWaiting
               | (Ok (Returned _), _, _) => MainExit 0
               | (Exn _, _, _) => MainExit 1
               end
           end
  end.

(** ** Proof tools *)

Ltac py_unfold :=
  unfold answer_call, answer_actions, try_finally, try_except, call, emit,
    lift, ret, raise, bind in *.

(** Case analysis on every collaborator result and branch condition in
    the goal, innermost first. *)
Ltac py_cases :=
  repeat match goal with
  | |- context [match ?x with Ok _ => _ | Exn _ => _ end] =>
      let H := fresh "Hr" in destruct x eqn:H
  | |- context [if ?b then _ else _] =>
      let H := fresh "Hb" in destruct b eqn:H
  | |- context [match ?x with (_, _) => _ end] => destruct x
  | |- context [match ?x with tt => _ end] => destruct x
  end; simpl in *.

(** No [hang_up] in the trace of the actions of [answer_call]. *)
Lemma answer_actions_no_hang_up env acts g n c s :
  ~ In EvHangUp (snd (answer_actions env acts g n c s)).
Proof.
  py_unfold. py_cases; intuition discriminate.
Qed.

(** C2: when [pick_up] succeeds, [hang_up] is called exactly once, as the
    last step of [answer_call], whatever the actions do (succeed, raise a
    [RuntimeError] that is caught, raise another exception, or are not
    configured); when [pick_up] returns [False] or raises, [hang_up] is not
    called. *)
Theorem answer_call_hang_up_once env acts g n c s :
  match pick_up env with
  | Ok true =>
      exists body,
        snd (answer_call env acts g n c s) = EvPickUp :: body ++ [EvHangUp]
        /\ ~ In EvHangUp body
  | _ => ~ In EvHangUp (snd (answer_call env acts g n c s))
  end.
Proof.
  pose proof (answer_actions_no_hang_up env acts g n c s) as Hno.
  unfold answer_call, try_finally, try_except, call, emit, lift, ret, bind.
  destruct (pick_up env) as [[|]|e]; simpl.
  - destruct (answer_actions env acts g n c s) as [[r s1] t1] eqn:Ha; simpl in Hno.
    destruct r as [u|e]; simpl.
    + destruct (hang_up env); simpl; exists t1; split; auto.
    + destruct (is_runtime_error e); simpl.
      * destruct (hang_up env); simpl; exists (t1 ++ [EvReport e]);
          (split; [rewrite <- app_assoc; reflexivity|]);
          rewrite in_app_iff; simpl; intuition discriminate.
      * destruct (hang_up env); simpl; exists t1; split; auto.
  - intuition discriminate.
  - intuition discriminate.
Qed.

(** Every [wait(7)] records its own return value. *)
Lemma ring_wait7_shape s :
  exists b s', ring_wait7 s = (Ok b, s', [EvWait b]).
Proof.
  unfold ring_wait7. destruct (ring_flag s); [eauto|].
  destruct (arrivals s) as [|[| |] rest]; eauto.
Qed.

(** The loop started at [ring_count] with [fuel] iterations left until
    [rings]: either all [fuel] waits are signalled and the result is
    [True], or the first [k] are and the next one times out, ending the loop
    with [False]. *)
Lemma ring_loop_waits fuel : forall rc rings s,
  (rc + Z.of_nat fuel)%Z = rings ->
  let '(r, _, t) := ring_loop fuel rc rings s in
  (r = Ok true /\ t = repeat (EvWait true) fuel)
  \/ (exists k, (k < fuel)%nat /\ r = Ok false
               /\ t = repeat (EvWait true) k ++ [EvWait false]).
Proof.
  induction fuel as [|fuel IH]; intros rc rings s Hr; simpl.
  - left; auto.
  - replace (rc <? rings)%Z with true by (symmetry; apply Z.ltb_lt; lia).
    unfold bind.
    destruct (ring_wait7_shape s) as [b [s1 Hw]]. rewrite Hw.
    destruct b.
    + specialize (IH (rc + 1)%Z rings s1 ltac:(lia)).
      destruct (ring_loop fuel (rc + 1) rings s1) as [[r s2] t2].
      destruct IH as [[-> ->] | [k [Hk [-> ->]]]].
      * left; auto.
      * right; exists (S k); split; [lia | split; reflexivity].
    + right; exists O; split; [lia | split; reflexivity].
Qed.

(** C4: with [rings_before_answer <= 1] the ring wait answers [True] with
    no wait at all; with [N > 1] it answers [True] exactly when [N - 1]
    successive waits are signalled within the timeout, and [False] as soon
    as one wait times out, after which no further wait is made. *)
Theorem wait_rings_eligibility (rings : Z) s :
  let '(r, _, t) := wait_rings rings s in
  ((rings <= 1)%Z -> r = Ok true /\ t = [])
  /\ ((1 < rings)%Z ->
      (r = Ok true /\ t = repeat (EvWait true) (Z.to_nat (rings - 1)))
      \/ (exists k, (k < Z.to_nat (rings - 1))%nat /\ r = Ok false
                   /\ t = repeat (EvWait true) k ++ [EvWait false])).
Proof.
  unfold wait_rings.
  destruct (Z_le_gt_dec rings 1) as [Hle|Hgt].
  - replace (Z.to_nat (rings - 1)) with O by lia. simpl.
    split; [auto | intros; lia].
  - pose proof (ring_loop_waits (Z.to_nat (rings - 1)) 1 rings s
                  ltac:(rewrite Z2Nat.id; lia)) as H.
    destruct (ring_loop (Z.to_nat (rings - 1)) 1 rings s) as [[r s'] t].
    split; [intros; lia | intros _; exact H].
Qed.

(** Number of waits of a trace that were signalled. *)
Definition signalled_waits (t : list event) : nat :=
  length (filter (fun ev => match ev with EvWait true => true | _ => false end) t).

(** Number of ring pulses among the modem's actions. *)
Definition pulses (l : list arrival) : nat :=
  length (filter (fun a => match a with Pulse => true | _ => false end) l).

Lemma ring_loop_flag_set fuel : forall rc rings arr,
  (rc + Z.of_nat fuel)%Z = rings ->
  ring_loop fuel rc rings {| ring_flag := true; arrivals := arr |}
  = (Ok true, {| ring_flag := true; arrivals := arr |}, repeat (EvWait true) fuel).
Proof.
  induction fuel as [|fuel IH]; intros rc rings arr Hr; simpl; [reflexivity|].
  replace (rc <? rings)%Z with true by (symmetry; apply Z.ltb_lt; lia).
  unfold bind; simpl. rewrite (IH (rc + 1)%Z rings arr ltac:(lia)). reflexivity.
Qed.

Lemma ring_loop_self_clearing fuel : forall rc rings arr,
  ~ In Latch arr ->
  let '(_, s', t) := ring_loop fuel rc rings {| ring_flag := false; arrivals := arr |} in
  exists consumed, arr = consumed ++ arrivals s' /\ ring_flag s' = false
                   /\ signalled_waits t = pulses consumed.
Proof.
  induction fuel as [|fuel IH]; intros rc rings arr Hl; simpl.
  - exists []; auto.
  - destruct (rc <? rings)%Z; [|exists []; auto].
    unfold bind, ring_wait7; simpl.
    destruct arr as [|a rest]; simpl.
    + exists []; auto.
    + assert (Hr : ~ In Latch rest) by (simpl in Hl; tauto).
      destruct a.
      * exists [Silent]; auto.
      * specialize (IH (rc + 1)%Z rings rest Hr).
        destruct (ring_loop fuel (rc + 1) rings {| ring_flag := false; arrivals := rest |})
          as [[r s2] t2].
        destruct IH as [cons [Ha [Hf Hc]]].
        exists (Pulse :: cons); simpl.
        split; [rewrite Ha; reflexivity|].
        split; [exact Hf|].
        unfold signalled_waits, pulses in *; simpl; f_equal; exact Hc.
      * exfalso; apply Hl; left; reflexivity.
Qed.

(** C5 (counterexample): [run] never clears [ring_event].  With three rings
    required and a single ring during which the modem leaves the event set,
    the second wait is satisfied again by that same ring: two signalled
    waits, one ring consumed. *)
Lemma wait_rings_counts_one_ring_twice :
  wait_rings 3 {| ring_flag := false; arrivals := [Latch] |}
  = (Ok true, {| ring_flag := true; arrivals := [] |},
     [EvWait true; EvWait true]).
Proof. reflexivity. Qed.

(** C5 (amended): the ring-wait loop does not reset the ring event.  While
    the event is set, every wait succeeds at once, consumes no new ring and
    leaves the event set, so a ring already counted is counted again.  Each
    signalled wait corresponds to a distinct new ring pulse only when the
    event is clear on entry and the modem clears it after each ring. *)
Theorem wait_rings_no_reset (rings : Z) arr :
  wait_rings rings {| ring_flag := true; arrivals := arr |}
  = (Ok true, {| ring_flag := true; arrivals := arr |},
     repeat (EvWait true) (Z.to_nat (rings - 1)))
  /\ (~ In Latch arr ->
      let '(_, s', t) := wait_rings rings {| ring_flag := false; arrivals := arr |} in
      exists consumed, arr = consumed ++ arrivals s' /\ ring_flag s' = false
                       /\ signalled_waits t = pulses consumed).
Proof.
  unfold wait_rings. split.
  - destruct (Z_le_gt_dec rings 1) as [Hle|Hgt].
    + replace (Z.to_nat (rings - 1)) with O by lia. reflexivity.
    + apply ring_loop_flag_set. rewrite Z2Nat.id; lia.
  - intros Hl. apply ring_loop_self_clearing; exact Hl.
Qed.

Lemma wait_rings_no_reset_witness :
  ~ In Latch [Pulse; Silent] /\
  (let '(_, s', t) := wait_rings 3 {| ring_flag := false; arrivals := [Pulse; Silent] |} in
   exists consumed, [Pulse; Silent] = consumed ++ arrivals s' /\ ring_flag s' = false
                    /\ signalled_waits t = pulses consumed).
Proof.
  assert (Hl : ~ In Latch [Pulse; Silent]) by (simpl; intuition discriminate).
  split; [exact Hl|].
  exact (proj2 (wait_rings_no_reset 3 [Pulse; Silent]) Hl).
Defined.

(** ** Which events a computation may emit *)

Definition emits_only {A} (P : event -> Prop) (m : M A) : Prop :=
  forall s, Forall P (snd (m s)).

Section EmitsOnly.

Variable P : event -> Prop.

Lemma emits_only_ret {A} (a : A) : emits_only P (ret a).
Proof. intros s; constructor. Qed.

Lemma emits_only_raise {A} e : emits_only P (@raise A e).
Proof. intros s; constructor. Qed.

Lemma emits_only_lift {A} (r : result A) : emits_only P (lift r).
Proof. intros s; constructor. Qed.

Lemma emits_only_emit ev : P ev -> emits_only P (emit ev).
Proof. intros H s; repeat constructor; exact H. Qed.

Lemma emits_only_bind {A B} (m : M A) (f : A -> M B) :
  emits_only P m -> (forall a, emits_only P (f a)) -> emits_only P (bind m f).
Proof.
  intros Hm Hf s. unfold bind. specialize (Hm s).
  destruct (m s) as [[[a|e] s1] t1]; simpl in *; [|exact Hm].
  specialize (Hf a s1). destruct (f a s1) as [[r s2] t2]; simpl in *.
  apply Forall_app; auto.
Qed.

Lemma emits_only_call {A} ev (r : result A) : P ev -> emits_only P (call ev r).
Proof.
  intros H. apply emits_only_bind; [apply emits_only_emit; exact H|].
  intros _; apply emits_only_lift.
Qed.

Lemma emits_only_try_except {A} p (m : M A) h :
  emits_only P m -> (forall e, emits_only P (h e)) -> emits_only P (try_except p m h).
Proof.
  intros Hm Hh s. unfold try_except. specialize (Hm s).
  destruct (m s) as [[[a|e] s1] t1]; simpl in *; [exact Hm|].
  destruct (p e); simpl; [|exact Hm].
  specialize (Hh e s1). destruct (h e s1) as [[r s2] t2]; simpl in *.
  apply Forall_app; auto.
Qed.

Lemma emits_only_try_finally {A} (m : M A) fin :
  emits_only P m -> emits_only P fin -> emits_only P (try_finally m fin).
Proof.
  intros Hm Hf s. unfold try_finally. specialize (Hm s).
  destruct (m s) as [[r s1] t1]; simpl in *.
  specialize (Hf s1). destruct (fin s1) as [[rf s2] t2]; simpl in *.
  apply Forall_app; auto.
Qed.

Lemma emits_only_ring_wait7 : (forall b, P (EvWait b)) -> emits_only P ring_wait7.
Proof.
  intros H s. unfold ring_wait7.
  destruct (ring_flag s); [repeat constructor; apply H|].
  destruct (arrivals s) as [|[| |] rest]; repeat constructor; apply H.
Qed.

Lemma emits_only_ring_loop fuel : forall rc rings,
  (forall b, P (EvWait b)) -> emits_only P (ring_loop fuel rc rings).
Proof.
  induction fuel as [|fuel IH]; intros rc rings H; simpl; [apply emits_only_ret|].
  destruct (rc <? rings)%Z; [|apply emits_only_ret].
  apply emits_only_bind; [apply emits_only_ring_wait7; exact H|].
  intros [|]; [apply IH; exact H | apply emits_only_ret].
Qed.

End EmitsOnly.

Create HintDb emits.

#[global] Hint Resolve emits_only_ret emits_only_raise emits_only_lift
  emits_only_emit emits_only_bind emits_only_call emits_only_try_except
  emits_only_try_finally emits_only_ring_wait7 emits_only_ring_loop : emits.

(** Split the continuations of binds, [if]s and [match]es. *)
Ltac emits_step :=
  match goal with
  | |- emits_only _ (call _ _) => apply emits_only_call; simpl; try exact I
  | |- emits_only _ (emit _) => apply emits_only_emit; simpl; try exact I
  | |- emits_only _ (bind _ _) => apply emits_only_bind; [|intros ?]
  | |- emits_only _ (try_finally _ _) => apply emits_only_try_finally
  | |- emits_only _ (try_except _ _ _) => apply emits_only_try_except; [|intros ?]
  | |- emits_only _ (if ?b then _ else _) => destruct b
  | |- emits_only _ (match ?x with _ => _ end) => destruct x
  | |- forall _, _ => intros
  end.

Ltac emits_solve :=
  repeat (emits_step || eauto with emits);
  try (intros; discriminate); try congruence.


Lemma emits_only_weaken {A} (P Q : event -> Prop) (m : M A) :
  (forall ev, P ev -> Q ev) -> emits_only P m -> emits_only Q m.
Proof. intros HPQ Hm s. eapply Forall_impl; [exact HPQ | apply Hm]. Qed.

(** Events of [answer_call]. *)
Definition answer_event (ev : event) : Prop :=
  match ev with
  | EvPickUp | EvPlayAudio _ | EvRecord _ | EvMenu _ | EvHangUp | EvReport _ => True
  | _ => False
  end.

Lemma answer_call_emits env acts g n c :
  emits_only answer_event (answer_call env acts g n c).
Proof.
  unfold answer_call, answer_actions. emits_solve.
Qed.

(** Events of the loop body once the call is classified. *)
Definition after_log_event (ev : event) : Prop :=
  match ev with
  | EvLog _ _ | EvWait _ => True
  | _ => answer_event ev
  end.

Lemma log_and_answer_emits env cfg c cl :
  emits_only after_log_event (log_and_answer env cfg c cl).
Proof.
  destruct cl as [[[[p sc] b] a] r].
  unfold log_and_answer, select_plan, wait_rings.
  apply emits_only_bind; [apply emits_only_call; exact I|intros n].
  apply emits_only_bind; [emits_solve|intros plan].
  apply emits_only_bind; [apply emits_only_ring_loop; intros; exact I|intros ok].
  destruct (ok && _)%bool; [|apply emits_only_ret].
  eapply emits_only_weaken; [|apply answer_call_emits].
  intros ev H; destruct ev; simpl in *; auto.
Qed.

(** [caller_number] raises or not, but emits nothing and keeps the state. *)
Lemma caller_number_shape c s :
  exists r, caller_number c s = (r, s, []).
Proof.
  unfold caller_number, bind, lift, getitem.
  destruct (dict_get "NMBR" c) as [[n|]|]; simpl; eauto.
Qed.

(** C3: with ["whitelist"] enabled and the whitelist check matching, the
    call is classified [Permitted] with the whitelist's reason, and the
    blacklist check is not called at all while handling the call, whatever
    the blacklist check would answer and whether ["blacklist"] is enabled. *)
Theorem whitelisted_caller_permitted env cfg c s r :
  py_in "whitelist" (screening_mode cfg) = true ->
  is_whitelisted env c = Ok (true, r) ->
  (forall cl s' t, classify env cfg c s = (Ok cl, s', t) ->
     cl = (true, false, false, "Permitted", r))
  /\ ~ In EvCheckBlacklist (snd (handle_call env cfg c s)).
Proof.
  intros Hwl Hw.
  assert (Hs : screen env cfg c s
               = (Ok (true, false, false, "Permitted", r), s,
                  [EvCheckWhitelist; EvApprovedBlink])).
  { unfold screen, call, emit, lift, ret, bind. rewrite Hwl, Hw. reflexivity. }
  destruct (caller_number_shape c s) as [rn Hn].
  assert (Hcl : classify env cfg c s
                = match rn with
                  | Ok _ => (Ok (true, false, false, "Permitted", r), s,
                             [EvCheckWhitelist; EvApprovedBlink])
                  | Exn e => (Exn e, s, [])
                  end).
  { unfold classify, bind at 1. rewrite Hn. destruct rn; [rewrite Hs|]; reflexivity. }
  split.
  - intros cl s' t. rewrite Hcl. destruct rn; congruence.
  - unfold handle_call, bind at 1. rewrite Hcl. destruct rn as [n|e]; [|simpl; tauto].
    pose proof (log_and_answer_emits env cfg c (true, false, false, "Permitted", r) s)
      as Hl.
    destruct (log_and_answer env cfg c (true, false, false, "Permitted", r) s)
      as [[r2 s2] t2]; simpl in *.
    intros [H|[H|H]]; try discriminate.
    rewrite Forall_forall in Hl. apply (Hl _ H).
Qed.

Lemma whitelisted_caller_permitted_witness :
  let env := {| is_whitelisted := fun _ => Ok (true, "friend");
                is_blacklisted := fun _ => Ok (true, "spam");
                log_caller := fun _ _ _ => Ok 1%nat; pick_up := Ok true;
                play_audio := fun _ => Ok tt; record_message := fun _ _ => Ok tt;
                voice_messaging_menu := fun _ _ => Ok tt; hang_up := Ok tt |} in
  let plan := {| actions := ["greeting"]; greeting_file := "hello.wav";
                 rings_before_answer := 2%Z |} in
  let cfg := {| screening_mode := ["whitelist"; "blacklist"]; permitted := plan;
                screened := plan; blocked := plan |} in
  let c := [("NMBR", PyStr "5551234567")] in
  let s := {| ring_flag := false; arrivals := [Pulse] |} in
  py_in "whitelist" (screening_mode cfg) = true /\ is_whitelisted env c = Ok (true, "friend")
  /\ ((forall cl s' t, classify env cfg c s = (Ok cl, s', t) ->
         cl = (true, false, false, "Permitted", "friend"))
      /\ ~ In EvCheckBlacklist (snd (handle_call env cfg c s))).
Proof.
  intros env plan cfg c s.
  split; [reflexivity|]. split; [reflexivity|].
  apply whitelisted_caller_permitted; reflexivity.
Defined.

(** C6: [record_message] and [voice_messaging_menu] are never both run by
    [answer_call]; the menu runs only when ["record_message"] is not in the
    actions; and with ["record_message"] configured, once the line is picked
    up and the greeting (if configured) has played, the message is
    recorded. *)
Theorem record_message_excludes_voice_mail env acts g n c s :
  let t := snd (answer_call env acts g n c s) in
  ~ (In (EvRecord n) t /\ In (EvMenu n) t)
  /\ (In (EvMenu n) t -> py_in "record_message" acts = false)
  /\ (py_in "record_message" acts = true -> pick_up env = Ok true ->
      (py_in "greeting" acts = false \/ play_audio env g = Ok tt) ->
      In (EvRecord n) t).
Proof.
  unfold answer_call, answer_actions, try_finally, try_except, call, emit,
    lift, ret, bind.
  py_cases; intuition (try discriminate; try congruence).
Qed.

Lemma call_eq {A} ev (r : result A) s : call ev r s = (r, s, [ev]).
Proof. unfold call, emit, lift, bind. destruct r; reflexivity. Qed.

(** A computation that starts with a collaborator call records it first. *)
Lemma bind_call_trace {A B} ev (r : result A) (f : A -> M B) s :
  exists post, snd (bind (call ev r) f s) = ev :: post.
Proof.
  unfold bind at 1. rewrite call_eq. destruct r as [a|e].
  - destruct (f a s) as [[r2 s2] t2]. exists t2; reflexivity.
  - exists []; reflexivity.
Qed.

Lemma log_and_answer_logs_first env cfg c p sc b a rs s :
  exists post, snd (log_and_answer env cfg c (p, sc, b, a, rs) s) = EvLog a rs :: post.
Proof. apply bind_call_trace. Qed.

(** Events of the classification. *)
Definition classify_event (ev : event) : Prop :=
  match ev with
  | EvCheckWhitelist | EvCheckBlacklist | EvApprovedBlink | EvBlockedBlink => True
  | _ => False
  end.

Lemma classify_emits env cfg c : emits_only classify_event (classify env cfg c).
Proof.
  unfold classify, caller_number, screen. emits_solve.
Qed.

(** C7: while a call is handled, nothing is logged, waited for or answered
    before the classification is done; as soon as it is done, [log_caller]
    is called with the category and reason, before any ring wait or
    [pick_up], whatever happens afterwards (ring wait answering [False],
    empty actions, [pick_up] failing or raising). *)
Theorem call_logged_before_answer env cfg c s :
  let '(r0, _, t0) := classify env cfg c s in
  Forall (fun ev => ~ after_log_event ev) t0
  /\ match r0 with
     | Ok (_, _, _, action, reason) =>
         exists post, snd (handle_call env cfg c s) = t0 ++ EvLog action reason :: post
     | Exn _ => snd (handle_call env cfg c s) = t0
     end.
Proof.
  pose proof (classify_emits env cfg c s) as Hcl.
  unfold handle_call, bind at 1 2.
  destruct (classify env cfg c s) as [[[cl|e] s0] t0]; simpl in Hcl.
  - split.
    + eapply Forall_impl; [|exact Hcl].
      intros [] H; simpl in *; tauto.
    + destruct cl as [[[[p sc] b] a] rs].
      destruct (log_and_answer_logs_first env cfg c p sc b a rs s0) as [post Hp].
      destruct (log_and_answer env cfg c (p, sc, b, a, rs) s0) as [[r2 s2] t2].
      simpl in *. exists post. rewrite Hp. reflexivity.
  - split; [|reflexivity].
    eapply Forall_impl; [|exact Hcl].
    intros [] H; simpl in *; tauto.
Qed.

(** C8 (counterexample): with both checks enabled and neither matching,
    the call is [Screened], but its reason is the one the blacklist check
    returned, not an empty reason. *)
Lemma screened_reason_from_blacklist_check :
  let env := {| is_whitelisted := fun _ => Ok (false, "not on whitelist");
                is_blacklisted := fun _ => Ok (false, "not on blacklist");
                log_caller := fun _ _ _ => Ok 1%nat; pick_up := Ok true;
                play_audio := fun _ => Ok tt; record_message := fun _ _ => Ok tt;
                voice_messaging_menu := fun _ _ => Ok tt; hang_up := Ok tt |} in
  let plan := {| actions := []; greeting_file := "hello.wav";
                 rings_before_answer := 1%Z |} in
  let cfg := {| screening_mode := ["whitelist"; "blacklist"]; permitted := plan;
                screened := plan; blocked := plan |} in
  let s := {| ring_flag := false; arrivals := [] |} in
  screen env cfg [("NMBR", PyStr "5559998888")] s
  = (Ok (false, true, false, "Screened", "not on blacklist"), s,
     [EvCheckWhitelist; EvCheckBlacklist; EvApprovedBlink]).
Proof. reflexivity. Qed.

(** C8 (amended): when neither the whitelist nor the blacklist branch
    assigns a category, the call is [Screened]; its reason is the one
    returned by the blacklist check when ["blacklist"] is enabled, else the
    one returned by the whitelist check when ["whitelist"] is enabled, and
    the empty string only when neither check is enabled. *)
Theorem screened_reason_of_last_check env cfg c s p sc b a r s' t :
  screen env cfg c s = (Ok (p, sc, b, a, r), s', t) ->
  p = false -> b = false ->
  sc = true /\ a = "Screened"
  /\ (py_in "blacklist" (screening_mode cfg) = true ->
      is_blacklisted env c = Ok (false, r))
  /\ (py_in "blacklist" (screening_mode cfg) = false ->
      py_in "whitelist" (screening_mode cfg) = true ->
      is_whitelisted env c = Ok (false, r))
  /\ (py_in "blacklist" (screening_mode cfg) = false ->
      py_in "whitelist" (screening_mode cfg) = false -> r = "").
Proof.
  intros H Hp Hb. subst p b.
  unfold screen, call, emit, lift, ret, bind in H.
  destruct (py_in "whitelist" (screening_mode cfg));
  destruct (py_in "blacklist" (screening_mode cfg));
  destruct (is_whitelisted env c) as [[[|] rw]|ew];
  destruct (is_blacklisted env c) as [[[|] rb]|eb];
  simpl in H; inversion H; subst;
  repeat split; intros; try discriminate; reflexivity.
Qed.

Lemma screened_reason_of_last_check_witness :
  let env := {| is_whitelisted := fun _ => Ok (false, "not on whitelist");
                is_blacklisted := fun _ => Ok (false, "not on blacklist");
                log_caller := fun _ _ _ => Ok 1%nat; pick_up := Ok true;
                play_audio := fun _ => Ok tt; record_message := fun _ _ => Ok tt;
                voice_messaging_menu := fun _ _ => Ok tt; hang_up := Ok tt |} in
  let plan := {| actions := []; greeting_file := "hello.wav";
                 rings_before_answer := 1%Z |} in
  let cfg := {| screening_mode := ["whitelist"]; permitted := plan;
                screened := plan; blocked := plan |} in
  let s := {| ring_flag := false; arrivals := [] |} in
  let c := [("NMBR", PyStr "5559998888")] in
  screen env cfg c s
  = (Ok (false, true, false, "Screened", "not on whitelist"), s,
     [EvCheckWhitelist; EvApprovedBlink])
  /\ is_whitelisted env c = Ok (false, "not on whitelist").
Proof.
  intros env plan cfg s c.
  assert (H : screen env cfg c s
              = (Ok (false, true, false, "Screened", "not on whitelist"), s,
                 [EvCheckWhitelist; EvApprovedBlink])) by reflexivity.
  split; [exact H|].
  exact (proj1 (proj2 (proj2 (proj2 (screened_reason_of_last_check env cfg c s
           false true false "Screened" "not on whitelist" s _ H eq_refl eq_refl))))
           eq_refl eq_refl).
Defined.

(** One turn of the [while 1] loop of [run]. *)
Lemma run_loop_cons env cfg c q s :
  run_loop env cfg (c :: q) s
  = let '(r1, s1, t1) := handle_call env cfg c s in
    match r1 with
    | Ok _ => let '(r2, s2, t2) := run_loop env cfg q s1 in (r2, s2, EvGet c :: t1 ++ t2)
    | Exn e => (Ok (Returned 1%Z), s1, EvGet c :: t1 ++ [EvReport e])
    end.
Proof.
  simpl. unfold bind at 1, emit.
  destruct (handle_call env cfg c s) as [[[u|e] s1] t1]; simpl; [|reflexivity].
  destruct (run_loop env cfg q s1) as [[r2 s2] t2]; reflexivity.
Qed.

(** A small environment used in the examples below. *)
Definition example_env (wl : result (bool * string)) (rec : result unit) : Env :=
  {| is_whitelisted := fun _ => wl;
     is_blacklisted := fun _ => Ok (false, "");
     log_caller := fun _ _ _ => Ok 1%nat; pick_up := Ok true;
     play_audio := fun _ => Ok tt; record_message := fun _ _ => rec;
     voice_messaging_menu := fun _ _ => Ok tt; hang_up := Ok tt |}.

Definition example_cfg (acts : list string) : Config :=
  let plan := {| actions := acts; greeting_file := "hello.wav";
                 rings_before_answer := 1%Z |} in
  {| screening_mode := ["whitelist"; "blacklist"]; permitted := plan;
     screened := plan; blocked := plan |}.

Definition example_caller1 : caller := [("NMBR", PyStr "5551234567"); ("NAME", PyStr "ALICE")].
Definition example_caller2 : caller := [("NMBR", PyStr "5559998888"); ("NAME", PyStr "BOB")].

(** C1 (counterexample): the whitelist lookup of the first caller fails;
    [run] reports it and returns 1, and the second queued caller is never
    taken from the queue. *)
Lemma run_exits_on_screening_error :
  run_loop (example_env (Exn (OSError "database is locked")) (Ok tt))
    (example_cfg ["greeting"]) [example_caller1; example_caller2]
    {| ring_flag := false; arrivals := [] |}
  = (Ok (Returned 1%Z), {| ring_flag := false; arrivals := [] |},
     [EvGet example_caller1; EvCheckWhitelist;
      EvReport (OSError "database is locked")]).
Proof. reflexivity. Qed.

(** C1 (amended): an exception escaping the handling of one call is
    reported and ends the loop, [run] returning 1 without taking the next
    caller; only when the handling completes normally is the next caller
    taken. *)
Theorem run_exits_on_call_error env cfg c q s :
  match handle_call env cfg c s with
  | (Exn e, s1, t1) =>
      run_loop env cfg (c :: q) s
      = (Ok (Returned 1%Z), s1, EvGet c :: t1 ++ [EvReport e])
  | (Ok _, s1, t1) =>
      exists r2 s2 t2, run_loop env cfg q s1 = (r2, s2, t2)
        /\ run_loop env cfg (c :: q) s = (r2, s2, EvGet c :: t1 ++ t2)
  end.
Proof.
  rewrite run_loop_cons.
  destruct (handle_call env cfg c s) as [[[u|e] s1] t1]; [|reflexivity].
  destruct (run_loop env cfg q s1) as [[r2 s2] t2]. eauto.
Qed.

(** C9 (counterexample): [record_message] fails with an [OSError], which
    [answer_call] does not catch: the line is hung up, but the exception
    reaches [run], which reports it and returns 1; the second caller is
    never handled. *)
Lemma run_exits_on_record_failure :
  run_loop (example_env (Ok (true, "friend")) (Exn (OSError "disk full")))
    (example_cfg ["record_message"]) [example_caller1; example_caller2]
    {| ring_flag := false; arrivals := [] |}
  = (Ok (Returned 1%Z), {| ring_flag := false; arrivals := [] |},
     [EvGet example_caller1; EvCheckWhitelist; EvApprovedBlink;
      EvLog "Permitted" "friend"; EvPickUp; EvRecord 1; EvHangUp;
      EvReport (OSError "disk full")]).
Proof. reflexivity. Qed.

(** C9 (amended): once the line is picked up (and [hang_up] itself
    succeeds), an exception raised by an action ends the actions of the
    call (a failing greeting is followed by no recording and no menu) and
    the line is hung up.  A [RuntimeError] is reported and [answer_call]
    returns normally; any other exception propagates out of
    [answer_call]. *)
Theorem answer_call_action_failure env acts g n c s :
  pick_up env = Ok true -> hang_up env = Ok tt ->
  (let '(rb, sb, tb) := answer_actions env acts g n c s in
   answer_call env acts g n c s
   = match rb with
     | Ok _ => (Ok tt, sb, EvPickUp :: tb ++ [EvHangUp])
     | Exn e =>
         if is_runtime_error e
         then (Ok tt, sb, EvPickUp :: tb ++ [EvReport e; EvHangUp])
         else (Exn e, sb, EvPickUp :: tb ++ [EvHangUp])
     end)
  /\ (forall e, py_in "greeting" acts = true -> play_audio env g = Exn e ->
      answer_actions env acts g n c s = (Exn e, s, [EvPlayAudio g])).
Proof.
  intros Hp Hh. split.
  - unfold answer_call, try_finally, try_except.
    unfold bind at 1. rewrite call_eq, Hp. cbv beta iota.
    destruct (answer_actions env acts g n c s) as [[[u|e] sb] tb].
    + rewrite call_eq, Hh. destruct u. reflexivity.
    + destruct (is_runtime_error e); unfold emit; rewrite call_eq, Hh; simpl;
        rewrite ?app_nil_r, <- ?app_assoc; reflexivity.
  - intros e Hg Ha. unfold answer_actions, bind at 1. rewrite Hg, call_eq, Ha.
    reflexivity.
Qed.

Lemma answer_call_action_failure_witness :
  let env := example_env (Ok (true, "friend")) (Exn (RuntimeError "modem timeout")) in
  pick_up env = Ok true /\ hang_up env = Ok tt /\
  answer_call env ["greeting"; "record_message"] "hello.wav" 1 example_caller1
    {| ring_flag := false; arrivals := [] |}
  = (Ok tt, {| ring_flag := false; arrivals := [] |},
     [EvPickUp; EvPlayAudio "hello.wav"; EvRecord 1;
      EvReport (RuntimeError "modem timeout"); EvHangUp]).
Proof.
  intros env.
  split; [reflexivity|]. split; [reflexivity|].
  exact (proj1 (answer_call_action_failure env ["greeting"; "record_message"]
                  "hello.wav" 1 example_caller1 {| ring_flag := false; arrivals := [] |}
                  eq_refl eq_refl)).
Defined.

(** C10: [handle_caller] enqueues any dict; a caller without an ["NMBR"]
    key makes the handling raise [KeyError] before any screening check or
    logging, and [run] reports it and returns 1. *)
Theorem caller_without_number_ends_run env cfg c q s :
  dict_get "NMBR" c = None ->
  handle_caller [] c = [c]
  /\ run_loop env cfg (handle_caller [] c ++ q) s
     = (Ok (Returned 1%Z), s, [EvGet c; EvReport (KeyError "NMBR")]).
Proof.
  intros Hn. split; [reflexivity|].
  simpl. unfold bind, emit, handle_call, classify, caller_number, lift, getitem.
  rewrite Hn. reflexivity.
Qed.

Lemma caller_without_number_ends_run_witness :
  dict_get "NMBR" [("NAME", PyStr "ALICE")] = None /\
  handle_caller [] [("NAME", PyStr "ALICE")] = [[("NAME", PyStr "ALICE")]]
  /\ run_loop (example_env (Ok (true, "friend")) (Ok tt)) (example_cfg ["greeting"])
       (handle_caller [] [("NAME", PyStr "ALICE")] ++ [example_caller2])
       {| ring_flag := false; arrivals := [] |}
     = (Ok (Returned 1%Z), {| ring_flag := false; arrivals := [] |},
        [EvGet [("NAME", PyStr "ALICE")]; EvReport (KeyError "NMBR")]).
Proof.
  split; [reflexivity|].
  apply caller_without_number_ends_run; reflexivity.
Defined.

(** ** Further properties of the engine *)

(** Number of events of a trace satisfying [f]. *)
Definition count_ev (f : event -> bool) (t : list event) : nat :=
  length (filter f t).

Definition is_approved_blink (ev : event) : bool :=
  match ev with EvApprovedBlink => true | _ => false end.

Definition is_blocked_blink (ev : event) : bool :=
  match ev with EvBlockedBlink => true | _ => false end.

Ltac screen_cases env cfg c H :=
  unfold screen, call, emit, lift, ret, bind in H |- *;
  destruct (py_in "whitelist" (screening_mode cfg));
  destruct (py_in "blacklist" (screening_mode cfg));
  destruct (is_whitelisted env c) as [[[|] ?]|?];
  destruct (is_blacklisted env c) as [[[|] ?]|?];
  simpl in *.

(** The screening assigns exactly one category, names it in [action], and
    blinks exactly one indicator: the blocked one for [Blocked], the
    approved one for [Permitted] and [Screened].  It never touches the ring
    state. *)
Theorem screen_one_category env cfg c s :
  match screen env cfg c s with
  | (Ok (p, sc, b, a, _), s', t) =>
      s' = s
      /\ ((p = true /\ sc = false /\ b = false /\ a = "Permitted")
          \/ (p = false /\ sc = true /\ b = false /\ a = "Screened")
          \/ (p = false /\ sc = false /\ b = true /\ a = "Blocked"))
      /\ count_ev is_blocked_blink t = (if b then 1 else 0)
      /\ count_ev is_approved_blink t = (if b then 0 else 1)
  | (Exn _, _, _) => True
  end.
Proof.
  remember (screen env cfg c s) as o eqn:H. symmetry in H.
  screen_cases env cfg c H; subst o; simpl;
    repeat split; (left; repeat split; reflexivity) || (right; left; repeat split; reflexivity)
    || (right; right; repeat split; reflexivity).
Qed.

(** The screening calls the whitelist check exactly when ["whitelist"] is
    enabled, and the blacklist check exactly when ["blacklist"] is enabled
    and the caller was not permitted by the whitelist. *)
Theorem screen_checks_called env cfg c s :
  match screen env cfg c s with
  | (Ok (p, _, _, _, _), _, t) =>
      (In EvCheckWhitelist t <-> py_in "whitelist" (screening_mode cfg) = true)
      /\ (In EvCheckBlacklist t <->
          py_in "blacklist" (screening_mode cfg) = true /\ p = false)
  | (Exn _, _, _) => True
  end.
Proof.
  remember (screen env cfg c s) as o eqn:H. symmetry in H.
  screen_cases env cfg c H; subst o; simpl;
    intuition (try discriminate; try congruence).
Qed.

(** With ["blacklist"] enabled, a caller the blacklist check matches and
    the whitelist does not (or with ["whitelist"] disabled) is [Blocked]
    with the blacklist's reason; the blocked indicator blinks. *)
Theorem blacklisted_caller_blocked env cfg c s r :
  py_in "blacklist" (screening_mode cfg) = true ->
  is_blacklisted env c = Ok (true, r) ->
  (py_in "whitelist" (screening_mode cfg) = false
   \/ exists r', is_whitelisted env c = Ok (false, r')) ->
  screen env cfg c s
  = (Ok (false, false, true, "Blocked", r), s,
     (if py_in "whitelist" (screening_mode cfg) then [EvCheckWhitelist] else [])
       ++ [EvCheckBlacklist; EvBlockedBlink]).
Proof.
  intros Hbl Hb Hw.
  unfold screen, call, emit, lift, ret, bind. rewrite Hbl, Hb.
  destruct Hw as [Hw | [r' Hw]].
  - rewrite Hw. reflexivity.
  - rewrite Hw. destruct (py_in "whitelist" (screening_mode cfg)); reflexivity.
Qed.

Lemma blacklisted_caller_blocked_witness :
  let env := {| is_whitelisted := fun _ => Ok (false, "");
                is_blacklisted := fun _ => Ok (true, "Robocaller");
                log_caller := fun _ _ _ => Ok 1%nat; pick_up := Ok true;
                play_audio := fun _ => Ok tt; record_message := fun _ _ => Ok tt;
                voice_messaging_menu := fun _ _ => Ok tt; hang_up := Ok tt |} in
  let s := {| ring_flag := false; arrivals := [] |} in
  screen env (example_cfg []) example_caller2 s
  = (Ok (false, false, true, "Blocked", "Robocaller"), s,
     [EvCheckWhitelist; EvCheckBlacklist; EvBlockedBlink]).
Proof.
  intros env s.
  exact (blacklisted_caller_blocked env (example_cfg []) example_caller2 s "Robocaller"
           eq_refl eq_refl (or_intror (ex_intro _ "" eq_refl))).
Defined.

(** When [pick_up] answers [False] (the line is already in use),
    [answer_call] returns normally having done nothing else; when [pick_up]
    raises, the exception propagates and nothing else is done either. *)
Theorem answer_call_not_picked_up env acts g n c s :
  match pick_up env with
  | Ok false => answer_call env acts g n c s = (Ok tt, s, [EvPickUp])
  | Exn e => answer_call env acts g n c s = (Exn e, s, [EvPickUp])
  | Ok true => True
  end.
Proof.
  unfold answer_call, bind at 1. rewrite call_eq.
  destruct (pick_up env) as [[|]|e]; reflexivity.
Qed.

(** When [hang_up] raises, [answer_call] raises that exception, whatever the
    actions did: it replaces a normal end and also an exception of an
    action. *)
Theorem answer_call_hang_up_error env acts g n c s :
  match pick_up env, hang_up env with
  | Ok true, Exn e => fst (fst (answer_call env acts g n c s)) = Exn e
  | _, _ => True
  end.
Proof.
  destruct (pick_up env) as [[|]|e0] eqn:Hp; auto.
  destruct (hang_up env) as [[]|e] eqn:Hh; auto.
  unfold answer_call, try_finally, try_except, bind at 1. rewrite call_eq, Hp.
  cbv beta iota.
  destruct (answer_actions env acts g n c s) as [[[u|e1] sb] tb].
  - rewrite call_eq, Hh. reflexivity.
  - destruct (is_runtime_error e1); [unfold emit|]; rewrite call_eq, Hh; reflexivity.
Qed.

(** The steps of [log_and_answer], one after the other. *)
Lemma log_and_answer_shape env cfg c p sc b a r s :
  log_and_answer env cfg c (p, sc, b, a, r) s =
  match log_caller env c a r with
  | Exn e => (Exn e, s, [EvLog a r])
  | Ok n =>
      match select_plan cfg p sc b s with
      | (Exn e, s1, _) => (Exn e, s1, [EvLog a r])
      | (Ok plan, s1, _) =>
          match wait_rings (rings_before_answer plan) s1 with
          | (Ok ok, sw, tw) =>
              if ok && (0 <? length (actions plan))%nat then
                let '(ra, sa, ta) :=
                  answer_call env (actions plan) (greeting_file plan) n c sw in
                (ra, sa, EvLog a r :: tw ++ ta)
              else (Ok tt, sw, EvLog a r :: tw)
          | (Exn e, sw, tw) => (Exn e, sw, EvLog a r :: tw)
          end
      end
  end.
Proof.
  unfold log_and_answer, bind at 1. rewrite call_eq.
  destruct (log_caller env c a r) as [n|e]; [|reflexivity].
  cbv beta iota.
  assert (Hsp : exists rp, select_plan cfg p sc b s = (rp, s, [])).
  { unfold select_plan, ret, raise.
    destruct p; [eauto|]; destruct sc; [eauto|]; destruct b; eauto. }
  destruct Hsp as [rp Hsp].
  unfold bind at 1. rewrite Hsp.
  destruct rp as [plan|e]; [|reflexivity]. simpl.
  unfold bind at 1.
  destruct (wait_rings (rings_before_answer plan) s) as [[[ok|e] sw] tw];
    [|reflexivity].
  destruct (ok && _)%bool.
  - destruct (answer_call env (actions plan) (greeting_file plan) n c sw)
      as [[ra sa] ta]; reflexivity.
  - unfold ret; simpl; rewrite app_nil_r; reflexivity.
Qed.

Definition is_wait (ev : event) : bool :=
  match ev with EvWait _ => true | _ => false end.

Lemma repeat_wait_all_waits n :
  Forall (fun ev => is_wait ev = true) (repeat (EvWait true) n).
Proof. induction n; simpl; constructor; auto. Qed.

(** The ring wait either ends signalled after [rings - 1] signalled waits,
    or not signalled. *)
Lemma wait_rings_outcome rings s :
  let '(rw, _, tw) := wait_rings rings s in
  (rw = Ok true /\ tw = repeat (EvWait true) (Z.to_nat (rings - 1)))
  \/ (rw = Ok false /\ Forall (fun ev => is_wait ev = true) tw).
Proof.
  unfold wait_rings.
  destruct (Z_le_gt_dec rings 1) as [Hle|Hgt].
  - replace (Z.to_nat (rings - 1)) with O by lia. simpl. left; auto.
  - pose proof (ring_loop_waits (Z.to_nat (rings - 1)) 1 rings s
                  ltac:(rewrite Z2Nat.id; lia)) as H.
    destruct (ring_loop (Z.to_nat (rings - 1)) 1 rings s) as [[r s'] t].
    destruct H as [H | [k [_ [Hr Ht]]]]; [left; exact H | right; split; [exact Hr|]].
    subst t. apply Forall_app; split; [apply repeat_wait_all_waits|repeat constructor].
Qed.

Lemma filter_nil_of_Forall (P : event -> Prop) (f : event -> bool) t :
  Forall P t -> (forall ev, P ev -> f ev = false) -> filter f t = [].
Proof.
  induction 1 as [|ev t Hev Ht IH]; intros Hf; simpl; [reflexivity|].
  rewrite (Hf ev Hev). apply IH; exact Hf.
Qed.

Lemma filter_repeat_wait n : filter is_wait (repeat (EvWait true) n) = repeat (EvWait true) n.
Proof. induction n; simpl; congruence. Qed.

(** The line is picked up only after the call was classified, and then only
    when the category's action list is not empty and the ring wait was
    eligible: the call's waits are exactly [rings_before_answer - 1]
    signalled ones. *)
Theorem pick_up_requires_eligibility env cfg c s :
  In EvPickUp (snd (handle_call env cfg c s)) ->
  exists p sc b a r s0 t0 plan,
    classify env cfg c s = (Ok (p, sc, b, a, r), s0, t0)
    /\ select_plan cfg p sc b s0 = (Ok plan, s0, [])
    /\ actions plan <> []
    /\ filter is_wait (snd (handle_call env cfg c s))
       = repeat (EvWait true) (Z.to_nat (rings_before_answer plan - 1)).
Proof.
  intros H.
  pose proof (classify_emits env cfg c s) as Hcl.
  assert (Hnp : forall t, Forall classify_event t -> ~ In EvPickUp t).
  { intros t Ht Hin. rewrite Forall_forall in Ht. exact (Ht _ Hin). }
  assert (Hnw : forall t, Forall classify_event t -> filter is_wait t = []).
  { intros t Ht. apply (filter_nil_of_Forall _ _ _ Ht). intros [] Hev; easy. }
  unfold handle_call in H |- *. unfold bind at 1 in H. unfold bind at 1.
  destruct (classify env cfg c s) as [[[cl|e] s0] t0] eqn:Hc; simpl in Hcl;
    [|simpl in H; exfalso; exact (Hnp _ Hcl H)].
  destruct cl as [[[[p sc] b] a] r].
  rewrite log_and_answer_shape in H |- *.
  destruct (log_caller env c a r) as [n|e];
    [|simpl in H; rewrite in_app_iff in H; simpl in H;
      destruct H as [H|[H|[]]]; [exact (False_ind _ (Hnp _ Hcl H))|discriminate]].
  assert (Hsp : exists rp, select_plan cfg p sc b s0 = (rp, s0, [])).
  { unfold select_plan, ret, raise.
    destruct p; [eauto|]; destruct sc; [eauto|]; destruct b; eauto. }
  destruct Hsp as [[plan|e] Hsp]; rewrite Hsp in H |- *;
    [|simpl in H; rewrite in_app_iff in H; simpl in H;
      destruct H as [H|[H|[]]]; [exact (False_ind _ (Hnp _ Hcl H))|discriminate]].
  pose proof (wait_rings_outcome (rings_before_answer plan) s0) as Hw.
  destruct (wait_rings (rings_before_answer plan) s0) as [[rw sw] tw].
  assert (Hwait : Forall (fun ev => is_wait ev = true) tw).
  { destruct Hw as [[_ ->]|[_ Hf]]; [apply repeat_wait_all_waits|exact Hf]. }
  assert (Hnpw : ~ In EvPickUp tw).
  { intros Hin. rewrite Forall_forall in Hwait. specialize (Hwait _ Hin). discriminate. }
  destruct Hw as [[-> Htw] | [-> _]]; simpl in H |- *.
  - destruct (0 <? length (actions plan))%nat eqn:Hlen.
    + pose proof (answer_call_emits env (actions plan) (greeting_file plan) n c sw) as Ha.
      destruct (answer_call env (actions plan) (greeting_file plan) n c sw)
        as [[ra sa] ta]; simpl in H, Ha |- *.
      exists p, sc, b, a, r, s0, t0, plan.
      split; [reflexivity|]. split; [exact Hsp|].
      split; [intros Hnil; rewrite Hnil in Hlen; discriminate|].
      rewrite filter_app, Hnw by exact Hcl. simpl.
      rewrite filter_app, Htw, filter_repeat_wait.
      rewrite (filter_nil_of_Forall _ _ _ Ha); [apply app_nil_r|].
      intros [] Hev; easy.
    + simpl in H. rewrite in_app_iff in H. simpl in H.
      destruct H as [H|[H|H]]; [exact (False_ind _ (Hnp _ Hcl H))|discriminate|].
      exfalso; exact (Hnpw H).
  - rewrite in_app_iff in H. simpl in H.
    destruct H as [H|[H|H]]; [exact (False_ind _ (Hnp _ Hcl H))|discriminate|].
    exfalso; exact (Hnpw H).
Qed.

Lemma pick_up_requires_eligibility_witness :
  let env := example_env (Ok (true, "friend")) (Ok tt) in
  let cfg := example_cfg ["greeting"] in
  let s := {| ring_flag := false; arrivals := [] |} in
  In EvPickUp (snd (handle_call env cfg example_caller1 s))
  /\ exists p sc b a r s0 t0 plan,
    classify env cfg example_caller1 s = (Ok (p, sc, b, a, r), s0, t0)
    /\ select_plan cfg p sc b s0 = (Ok plan, s0, [])
    /\ actions plan <> []
    /\ filter is_wait (snd (handle_call env cfg example_caller1 s))
       = repeat (EvWait true) (Z.to_nat (rings_before_answer plan - 1)).
Proof.
  intros env cfg s.
  assert (H : In EvPickUp (snd (handle_call env cfg example_caller1 s))).
  { vm_compute. right; right; right; left; reflexivity. }
  split; [exact H|].
  exact (pick_up_requires_eligibility env cfg example_caller1 s H).
Defined.

(** When [log_caller] raises, the call is not waited for nor answered: the
    exception leaves the loop body right after the logging attempt. *)
Theorem log_failure_stops_call env cfg c s p sc b a r s0 t0 e :
  classify env cfg c s = (Ok (p, sc, b, a, r), s0, t0) ->
  log_caller env c a r = Exn e ->
  handle_call env cfg c s = (Exn e, s0, t0 ++ [EvLog a r]).
Proof.
  intros Hc Hl. unfold handle_call, bind at 1. rewrite Hc.
  rewrite log_and_answer_shape, Hl. reflexivity.
Qed.

Lemma log_failure_stops_call_witness :
  let env := {| is_whitelisted := fun _ => Ok (false, "");
                is_blacklisted := fun _ => Ok (false, "");
                log_caller := fun _ _ _ => Exn (OSError "database is locked");
                pick_up := Ok true; play_audio := fun _ => Ok tt;
                record_message := fun _ _ => Ok tt;
                voice_messaging_menu := fun _ _ => Ok tt; hang_up := Ok tt |} in
  let cfg := example_cfg ["greeting"] in
  let s := {| ring_flag := false; arrivals := [] |} in
  handle_call env cfg example_caller1 s
  = (Exn (OSError "database is locked"), s,
     [EvCheckWhitelist; EvCheckBlacklist; EvApprovedBlink; EvLog "Screened" ""]).
Proof.
  intros env cfg s.
  exact (log_failure_stops_call env cfg example_caller1 s false true false "Screened" ""
           s [EvCheckWhitelist; EvCheckBlacklist; EvApprovedBlink]
           (OSError "database is locked") eq_refl eq_refl).
Defined.

(** The callers taken from the queue by [run]. *)
Definition taken (t : list event) : list caller :=
  flat_map (fun ev => match ev with EvGet c => [c] | _ => [] end) t.

Lemma handle_call_takes_none env cfg c s : taken (snd (handle_call env cfg c s)) = [].
Proof.
  assert (H : emits_only (fun ev => match ev with EvGet _ => False | _ => True end)
                (handle_call env cfg c)).
  { unfold handle_call. apply emits_only_bind.
    - eapply emits_only_weaken; [|apply classify_emits]. intros [] Hev; easy.
    - intros cl. eapply emits_only_weaken; [|apply log_and_answer_emits].
      intros [] Hev; easy. }
  specialize (H s). induction (snd (handle_call env cfg c s)) as [|ev t IH]; [reflexivity|].
  inversion H as [|ev' t' Hev Ht]; subst. destruct ev; try contradiction; exact (IH Ht).
Qed.

(** [run] takes the queued callers strictly in order: either it has taken
    them all and waits for the next one, or it returned 1 after taking a
    non-empty prefix of the queue. *)
Theorem run_takes_callers_in_order env cfg q : forall s,
  let '(r, _, t) := run_loop env cfg q s in
  (r = Ok Waiting /\ taken t = q)
  \/ (r = Ok (Returned 1%Z) /\ exists k, (1 <= k <= length q)%nat /\ taken t = firstn k q).
Proof.
  induction q as [|c q IH]; intros s.
  - left; split; reflexivity.
  - rewrite run_loop_cons.
    pose proof (handle_call_takes_none env cfg c s) as Hn.
    destruct (handle_call env cfg c s) as [[[u|e] s1] t1]; simpl in Hn.
    + specialize (IH s1). destruct (run_loop env cfg q s1) as [[r2 s2] t2].
      unfold taken in *. simpl. rewrite flat_map_app, Hn. simpl.
      destruct IH as [[-> ->] | [-> [k [Hk ->]]]].
      * left; split; reflexivity.
      * right; split; [reflexivity|]. exists (S k); split; [simpl; lia | reflexivity].
    + right; split; [reflexivity|]. exists 1%nat; split; [simpl; lia|].
      unfold taken in *. simpl. rewrite flat_map_app, Hn. reflexivity.
Qed.

(** ** Properties of the command line and of [main] *)

Lemma substring_0_length s : substring 0 (String.length s) s = s.
Proof. induction s as [|ch s IH]; simpl; [reflexivity|]. rewrite IH. reflexivity. Qed.

(** [-c FILE], [--config FILE] and [--config=FILE] all give [FILE] as the
    configuration file, whatever [FILE] is (even one starting with ['-']),
    and nothing is printed. *)
Theorem get_args_config_forms prog f :
  get_args [prog; "-c"; f] = ([], ArgsConfig (Some f))
  /\ get_args [prog; "--config"; f] = ([], ArgsConfig (Some f))
  /\ get_args [prog; ("--config=" ++ f)%string] = ([], ArgsConfig (Some f)).
Proof.
  split; [reflexivity|]. split; [reflexivity|].
  pose proof (substring_0_length f) as E.
  assert (Hp : String.prefix "" f = true) by (destruct f; reflexivity).
  unfold get_args, getopt. simpl. rewrite E.
  unfold do_longs. simpl. rewrite Hp. simpl.
  rewrite Nat.sub_0_r, E. reflexivity.
Qed.





Lemma last_default_irrelevant {A} (x : A) l d d' : last (x :: l) d = last (x :: l) d'.
Proof.
  revert x. induction l as [|y l IH]; intros x; [reflexivity|].
  change (last (y :: l) d = last (y :: l) d'). apply IH.
Qed.

(** The options [getopt] returned decide [get_args]'s outcome: any [-h] or
    [--help] among them prints the help text and exits with status 0, even
    after a [-c]; otherwise the value of the last [-c] or [--config] is the
    configuration file, and with none of them the file stays [None]. *)
Theorem scan_opts_outcome opts cf :
  scan_opts opts cf =
  if existsb is_help_opt opts then (help_lines, ArgsExit 0)
  else ([], ArgsConfig (last (map Some (config_values opts)) cf)).
Proof.
  revert cf. induction opts as [|[o a] rest IH]; intros cf; [reflexivity|].
  unfold config_values, is_help_opt in *. cbn [scan_opts existsb filter fst].
  destruct (py_in o ["-h"; "--help"]); [reflexivity|]. cbn [orb].
  destruct (py_in o ["-c"; "--config"]); rewrite IH; [|reflexivity].
  destruct (existsb _ rest); [reflexivity|].
  cbn [map snd]. f_equal. f_equal.
  destruct (map snd _) as [|v vs]; [reflexivity|].
  cbn [map]. transitivity (last (Some v :: map Some vs) cf);
    [apply last_default_irrelevant | reflexivity].
Qed.




Lemma scan_opts_exit opts cf st :
  snd (scan_opts opts cf) = ArgsExit st -> st = 0%Z.
Proof.
  revert cf. induction opts as [|[o a] rest IH]; intros cf H; [discriminate|].
  cbn [scan_opts] in H.
  destruct (py_in o ["-h"; "--help"]); [injection H; auto|].
  destruct (py_in o ["-c"; "--config"]); eapply IH; exact H.
Qed.

Lemma get_args_exit argv st :
  snd (get_args argv) = ArgsExit st -> st = 0%Z \/ st = 2%Z.
Proof.
  unfold get_args. destruct (getopt _ _ _) as [[opts args]|m o].
  - intros H. left. exact (scan_opts_exit opts None st H).
  - intros H. injection H. auto.
Qed.


